(** * A shallow embedding of the GRIB edition 1 decoder of gogrib2

    The model follows the package [grib1] (the flag-gated version with
    [ProductDefinition], [GridDescription], [Bitmap] and [LatLongGrid]) and
    the package [hexademicalfloatingpoint] ([Parse32]).

    Conventions of the embedding:
    - a Go [byte] is a [Byte.byte]; a [[]byte] is a [list Byte.byte];
    - Go integers are [Z]; [int32] arithmetic wraps through [toInt32];
    - indexing or slicing a slice out of range makes Go panic: every decoder
      returns an [outcome], which is [Ok], [Err] (a returned [error]) or
      [Panic];
    - a [float64] is a binary64 [spec_float] of the Corelib specification
      of IEEE-754 arithmetic ([prec] = 53, [emax] = 1024); a [float32] sample
      produced by [math.Float32frombits] is kept as its 32-bit pattern. *)

From Stdlib Require Import ZArith List Lia Bool String Ascii QArith Qpower Permutation.
From Stdlib Require Import Strings.Byte.
From Corelib Require Import Floats.SpecFloat.
Import ListNotations.

Open Scope Z_scope.

(** ** Go values *)

Definition bv (b : Byte.byte) : Z := Z.of_N (Byte.to_N b).

(** The outcome of a Go function that returns an [error] and may panic. *)
Inductive outcome (A : Type) : Type :=
| Ok (a : A)
| Err (msg : string)
| Panic.
Arguments Ok {A} a.
Arguments Err {A} msg.
Arguments Panic {A}.

Definition bind {A B : Type} (m : outcome A) (k : A -> outcome B) : outcome B :=
  match m with
  | Ok a => k a
  | Err e => Err e
  | Panic => Panic
  end.

Notation "x <- m ;; k" := (bind m (fun x => k))
  (at level 61, m at next level, right associativity).

(** [data[i]]: panics unless [0 <= i < len(data)]. *)
Definition idx (data : list Byte.byte) (i : Z) : outcome Byte.byte :=
  if (0 <=? i) && (i <? Z.of_nat (List.length data)) then
    match nth_error data (Z.to_nat i) with
    | Some b => Ok b
    | None => Panic
    end
  else Panic.

(** [data[lo:hi]]: panics unless [0 <= lo <= hi <= len(data)].  (Go allows
    [hi] up to the capacity; every slice expression of the decoder has an
    upper bound already checked against the length, so the length is the
    bound that matters.) *)
Definition slice (data : list Byte.byte) (lo hi : Z) : outcome (list Byte.byte) :=
  if (0 <=? lo) && (lo <=? hi) && (hi <=? Z.of_nat (List.length data)) then
    Ok (firstn (Z.to_nat (hi - lo)) (skipn (Z.to_nat lo) data))
  else Panic.

(** [data[lo:]]. *)
Definition slice_from (data : list Byte.byte) (lo : Z) : outcome (list Byte.byte) :=
  slice data lo (Z.of_nat (List.length data)).

(** Conversion to [int32] (two's complement wrap-around). *)
Definition toInt32 (z : Z) : Z :=
  let m := z mod 2 ^ 32 in
  if 2 ^ 31 <=? m then m - 2 ^ 32 else m.

(** ** Numeric primitives *)

(** [binary.BigEndian.Uint32]. *)
Definition parse4ByteUint (byte0 byte1 byte2 byte3 : Byte.byte) : Z :=
  Z.lor (Z.lor (Z.lor (bv byte3) (Z.shiftl (bv byte2) 8))
               (Z.shiftl (bv byte1) 16))
        (Z.shiftl (bv byte0) 24).

Definition parse3ByteUint (byte0 byte1 byte2 : Byte.byte) : Z :=
  parse4ByteUint x00 byte0 byte1 byte2.

Definition parse2ByteUint (byte0 byte1 : Byte.byte) : Z :=
  parse3ByteUint x00 byte0 byte1.

Definition parse2ByteInt (byte0 byte1 : Byte.byte) : Z :=
  let unsigned := parse2ByteUint byte0 byte1 in
  let absValue := Z.land unsigned 32767 in
  let negative := negb (Z.land unsigned (Z.shiftl 1 15) =? 0) in
  if negative then toInt32 (-1 * toInt32 absValue) else toInt32 absValue.

Definition parse3ByteInt (byte0 byte1 byte2 : Byte.byte) : Z :=
  let unsigned := parse3ByteUint byte0 byte1 byte2 in
  let absValue := Z.land unsigned 8388607 in
  let negative := negb (Z.land unsigned (Z.shiftl 1 23) =? 0) in
  if negative then toInt32 (-1 * toInt32 absValue) else toInt32 absValue.

(** [parse4ByteReal]: [real(uint32)], with [real] an [int64]. *)
Definition parse4ByteReal (byte0 byte1 byte2 byte3 : Byte.byte) : Z :=
  parse4ByteUint byte0 byte1 byte2 byte3.

(** ** float64 *)

Definition float64 := spec_float.

(** [float64(n)] for a Go [int]. *)
Definition float64_of_int (n : Z) : float64 := binary_normalize 53 1024 n 0 false.

(** [math.Ldexp(frac, exp)]: [frac * 2^exp], rounded to nearest even. *)
Definition Ldexp (frac : float64) (exp : Z) : float64 := SFldexp 53 1024 frac exp.

Definition float64_mul (x y : float64) : float64 := SFmul 53 1024 x y.

(** The real number a finite [float64] denotes. *)
Definition SFvalue (f : float64) : option Q :=
  match f with
  | S754_zero _ => Some 0%Q
  | S754_finite s m e =>
      Some ((if s then (-1)%Q else 1%Q) * inject_Z (Zpos m) * Qpower (2 # 1) e)%Q
  | _ => None
  end.

(** [hexademicalfloatingpoint.Parse32]. *)
Definition Parse32 (bytes : list Byte.byte) : outcome float64 :=
  byte0 <- idx bytes 0 ;;
  let a := Z.land (bv byte0) 127 in
  let exp := 4 * (a - 64) - 24 in
  byte1 <- idx bytes 1 ;;
  byte2 <- idx bytes 2 ;;
  byte3 <- idx bytes 3 ;;
  let b := Z.lor (Z.lor (Z.shiftl (bv byte1) 16) (Z.shiftl (bv byte2) 8)) (bv byte3) in
  let out := Ldexp (float64_of_int b) exp in
  byte0' <- idx bytes 0 ;;
  let isNegative := negb (Z.land (bv byte0') 128 =? 0) in
  if isNegative then Ok (float64_mul out (float64_of_int (-1))) else Ok out.

(** ** Section decoders *)

Notation "' p <- m ;; k" := (bind m (fun x => match x with p => k end))
  (at level 61, p pattern, m at next level, right associativity).

(** [fmt.Errorf("...: %w", err)]. *)
Definition wrap {A : Type} (prefix : string) (m : outcome A) : outcome A :=
  match m with
  | Err e => Err (prefix ++ e)
  | other => other
  end.

(** [string(a) == string(b)] on byte slices. *)
Fixpoint bytes_eqb (a b : list Byte.byte) : bool :=
  match a, b with
  | [], [] => true
  | x :: a', y :: b' => Byte.eqb x y && bytes_eqb a' b'
  | _, _ => false
  end.

(** The literals "GRIB" and "7777". *)
Definition GRIB_magic : list Byte.byte := [x47; x52; x49; x42].
Definition end_sentinel : list Byte.byte := [x37; x37; x37; x37].

Definition len (data : list Byte.byte) : Z := Z.of_nat (List.length data).

(** [indicatorSection.parseBytes]: the message length and the bytes read. *)
Definition indicatorSection_parseBytes (data : list Byte.byte) : outcome (Z * Z) :=
  if len data <? 8 then Err "invalid GRIB file < 8 bytes long" else
  let messageData := data in
  data <- slice data 0 8 ;;
  magic <- slice data 0 4 ;;
  if negb (bytes_eqb magic GRIB_magic) then Err "first four bytes are not GRIB" else
  d7 <- idx data 7 ;;
  if negb (bv d7 =? 1) then Err "unsupported GRIB edition" else
  d4 <- idx data 4 ;; d5 <- idx data 5 ;; d6 <- idx data 6 ;;
  let messageLength := parse3ByteUint d4 d5 d6 in
  if len messageData <? messageLength then Err "message length exceeds the data" else
  Ok (messageLength, 8).

Record ProductDefinition := mkProductDefinition {
  section1Length : Z;
  table2Version : Z;
  center : Z;
  generatingProcessIdentifier : Z;
  gridDefinition : Z;
  section1Flags : Z;
  indicatorOfParameter : Z;
  indicatorOfTypeOfLevel : Z;
  heightPressureEtcOfLevels : Z;
  yearOfCentury : Z;
  month : Z;
  day : Z;
  hour : Z;
  minute : Z;
  unitOfTimeRange : Z;
  p1 : Z;
  p2 : Z;
  timeRangeIndicator : Z;
  numberIncludedInAverage : Z;
  numberMissingFromAveragesOrAccumulations : Z;
  centuryOfReferenceTimeOfData : Z;
  subCentre : Z;
  decimalScaleFactor : Z
}.

Definition section2Included : Z := Z.shiftl 1 7.
Definition section3Included : Z := Z.shiftl 1 6.

Definition gridDescriptionSectionIncluded (s : ProductDefinition) : bool :=
  negb (Z.land (section1Flags s) section2Included =? 0).

Definition BitmapIncluded (s : ProductDefinition) : bool :=
  negb (Z.land (section1Flags s) section3Included =? 0).

(** [ProductDefinition.parseBytes]. *)
Definition ProductDefinition_parseBytes (data : list Byte.byte)
  : outcome (ProductDefinition * Z) :=
  if len data <? 28 then Err "GRIB file section must be at least 28 bytes long" else
  d0 <- idx data 0 ;; d1 <- idx data 1 ;; d2 <- idx data 2 ;;
  d3 <- idx data 3 ;; d4 <- idx data 4 ;; d5 <- idx data 5 ;;
  d6 <- idx data 6 ;; d7 <- idx data 7 ;; d8 <- idx data 8 ;;
  d9 <- idx data 9 ;; d10 <- idx data 10 ;; d11 <- idx data 11 ;;
  d12 <- idx data 12 ;; d13 <- idx data 13 ;; d14 <- idx data 14 ;;
  d15 <- idx data 15 ;; d16 <- idx data 16 ;; d17 <- idx data 17 ;;
  d18 <- idx data 18 ;; d19 <- idx data 19 ;; d20 <- idx data 20 ;;
  d21 <- idx data 21 ;; d22 <- idx data 22 ;; d23 <- idx data 23 ;;
  d24 <- idx data 24 ;; d25 <- idx data 25 ;;
  let s := {|
    section1Length := parse3ByteUint d0 d1 d2;
    table2Version := bv d3;
    center := bv d4;
    generatingProcessIdentifier := bv d5;
    gridDefinition := bv d6;
    section1Flags := bv d7;
    indicatorOfParameter := bv d8;
    indicatorOfTypeOfLevel := bv d9;
    heightPressureEtcOfLevels := parse2ByteUint d10 d11;
    yearOfCentury := bv d12;
    month := bv d13;
    day := bv d14;
    hour := bv d15;
    minute := bv d16;
    unitOfTimeRange := bv d17;
    p1 := bv d18;
    p2 := bv d19;
    timeRangeIndicator := bv d20;
    numberIncludedInAverage := parse2ByteUint d21 d22;
    numberMissingFromAveragesOrAccumulations := bv d23;
    centuryOfReferenceTimeOfData := bv d24;
    subCentre := bv d25;
    decimalScaleFactor := parse2ByteInt d21 d22 |} in
  if len data <? section1Length s
  then Err "section 1 claims its length is greater than data size"
  else Ok (s, section1Length s).

Record QuantizedAngle := mkQuantizedAngle { milliDegrees : Z }.

Record LatLng := mkLatLng { lat : QuantizedAngle; lng : QuantizedAngle }.

Record LatLongGrid := mkLatLongGrid {
  numPointsAlongParallel : Z;
  numPointsAlongMeridian : Z;
  firstGridPoint : LatLng;
  lastGridPoint : LatLng;
  parallelIncrement : QuantizedAngle;
  meridianIncrement : QuantizedAngle;
  resolutionAndComponentFlags : Z;
  scanningMode : Z
}.

Definition pointsScanInMinusIDirection : Z := Z.shiftl 1 7.
Definition pointsScanInPlusJDirection_bit : Z := Z.shiftl 1 6.
Definition adjPointsJDirectionConsecutive : Z := Z.shiftl 1 5.

Definition pointsScanInPlusIDirection (m : Z) : bool :=
  Z.land m pointsScanInMinusIDirection =? 0.
Definition pointsScanInPlusJDirection (m : Z) : bool :=
  negb (Z.land m pointsScanInPlusJDirection_bit =? 0).
Definition adjacentPointsInIDirectionAreConsecutive (m : Z) : bool :=
  Z.land m adjPointsJDirectionConsecutive =? 0.

(** [LatLongGrid.parseBytes]: reads [data[0]] to [data[21]] with no length
    check, then corrects the signs of the increments. *)
Definition LatLongGrid_parseBytes (data : list Byte.byte) : outcome LatLongGrid :=
  d0 <- idx data 0 ;; d1 <- idx data 1 ;; d2 <- idx data 2 ;;
  d3 <- idx data 3 ;; d4 <- idx data 4 ;; d5 <- idx data 5 ;;
  d6 <- idx data 6 ;; d7 <- idx data 7 ;; d8 <- idx data 8 ;;
  d9 <- idx data 9 ;; d10 <- idx data 10 ;; d11 <- idx data 11 ;;
  d12 <- idx data 12 ;; d13 <- idx data 13 ;; d14 <- idx data 14 ;;
  d15 <- idx data 15 ;; d16 <- idx data 16 ;; d17 <- idx data 17 ;;
  d18 <- idx data 18 ;; d19 <- idx data 19 ;; d20 <- idx data 20 ;;
  d21 <- idx data 21 ;;
  let sm := bv d21 in
  let pinc := toInt32 (parse2ByteUint d17 d18) in
  let minc := toInt32 (parse2ByteUint d19 d20) in
  let pinc := if negb (pointsScanInPlusIDirection sm) then toInt32 (pinc * -1) else pinc in
  let minc := if negb (pointsScanInPlusJDirection sm) then toInt32 (minc * -1) else minc in
  Ok {|
    numPointsAlongParallel := parse2ByteUint d0 d1 mod 2 ^ 16;
    numPointsAlongMeridian := parse2ByteUint d2 d3 mod 2 ^ 16;
    firstGridPoint := mkLatLng (mkQuantizedAngle (parse3ByteInt d4 d5 d6))
                               (mkQuantizedAngle (parse3ByteInt d7 d8 d9));
    lastGridPoint := mkLatLng (mkQuantizedAngle (parse3ByteInt d11 d12 d13))
                              (mkQuantizedAngle (parse3ByteInt d14 d15 d16));
    parallelIncrement := mkQuantizedAngle pinc;
    meridianIncrement := mkQuantizedAngle minc;
    resolutionAndComponentFlags := bv d10;
    scanningMode := sm |}.

(** [LatLongGrid.Points]. *)
Definition Points (s : LatLongGrid) : list LatLng :=
  let js := map Z.of_nat (seq 0 (Z.to_nat (numPointsAlongMeridian s))) in
  let is := map Z.of_nat (seq 0 (Z.to_nat (numPointsAlongParallel s))) in
  let latAt j := mkQuantizedAngle (toInt32 (milliDegrees (lat (firstGridPoint s))
                   + toInt32 (toInt32 j * milliDegrees (meridianIncrement s)))) in
  let lngAt i := mkQuantizedAngle (toInt32 (milliDegrees (lng (firstGridPoint s))
                   + toInt32 (toInt32 i * milliDegrees (parallelIncrement s)))) in
  if adjacentPointsInIDirectionAreConsecutive (scanningMode s) then
    flat_map (fun j => map (fun i => mkLatLng (latAt j) (lngAt i)) is) js
  else
    flat_map (fun i => map (fun j => mkLatLng (latAt j) (lngAt i)) js) is.

(** [GridDescription.parsedValue]: a [*LatLongGrid] or an
    [unparsedGridDescription]. *)
Inductive GridValue :=
| LatLongValue (g : LatLongGrid)
| UnparsedGridDescription (b : list Byte.byte).

Record GridDescription := mkGridDescription {
  section2Length : Z;
  numberOfVerticalCoordinateValues : Z;
  pvlLocation : Z;
  dataRepresentationType : Z;
  parsedValue : GridValue
}.

Definition DataRepresentationTypeLL : Z := 0.

(** [GridDescription.parseBytes]. *)
Definition GridDescription_parseBytes (data : list Byte.byte)
  : outcome (GridDescription * Z) :=
  if len data <? 6 then Err "GRIB file section must be at least 6 bytes long" else
  d0 <- idx data 0 ;; d1 <- idx data 1 ;; d2 <- idx data 2 ;;
  d3 <- idx data 3 ;; d4 <- idx data 4 ;; d5 <- idx data 5 ;;
  let L := parse3ByteUint d0 d1 d2 in
  if len data <? L
  then Err "section 2 claims its length is greater than data size" else
  representationBytes <- slice data 6 L ;;
  pv <- (if bv d5 =? DataRepresentationTypeLL then
           grid <- wrap "section 2 failed to parse DataRepresentationTypeLL: "
                        (LatLongGrid_parseBytes representationBytes) ;;
           Ok (LatLongValue grid)
         else Ok (UnparsedGridDescription representationBytes)) ;;
  Ok ({| section2Length := L;
         numberOfVerticalCoordinateValues := bv d3;
         pvlLocation := bv d4;
         dataRepresentationType := bv d5;
         parsedValue := pv |}, L).

Record Bitmap := mkBitmap {
  section3Length : Z;
  numberOfUnusedBitsAtEndOfSection3 : Z;
  tableReference : Z;
  values : list Byte.byte
}.

(** [Bitmap.parseBytes]. *)
Definition Bitmap_parseBytes (data : list Byte.byte) : outcome (Bitmap * Z) :=
  if len data <? 6 then Err "GRIB file section must be at least 6 bytes long" else
  d0 <- idx data 0 ;; d1 <- idx data 1 ;; d2 <- idx data 2 ;;
  d3 <- idx data 3 ;; d4 <- idx data 4 ;; d5 <- idx data 5 ;;
  let L := parse3ByteUint d0 d1 d2 in
  let tableRef := parse2ByteUint d4 d5 in
  if len data <? L
  then Err "section 3 claims its length is greater than data size" else
  vals <- (if tableRef =? 0 then slice data 6 L else Ok []) ;;
  Ok ({| section3Length := L;
         numberOfUnusedBitsAtEndOfSection3 := bv d3;
         tableReference := tableRef;
         values := vals |}, L).

Record binaryDataSection := mkBinaryDataSection {
  section4Length : Z;
  dataFlag : Z;
  binaryScaleFactor : Z;
  referenceValue : Z;
  bitsPerValue : Z;
  variables : list Z;
  unparsedVariables : list Byte.byte
}.

Definition binaryDataFlagIntegerValues : Z := Z.shiftl 1 (8 - 3).

Definition floatingPointValuesRepresented (f : Z) : bool :=
  Z.land f binaryDataFlagIntegerValues =? 0.

(** [binary.LittleEndian.Uint32]. *)
Definition LittleEndian_Uint32 (b : list Byte.byte) : outcome Z :=
  b3 <- idx b 3 ;; b0 <- idx b 0 ;; b1 <- idx b 1 ;; b2 <- idx b 2 ;;
  Ok (Z.lor (Z.lor (Z.lor (bv b0) (Z.shiftl (bv b1) 8)) (Z.shiftl (bv b2) 16))
            (Z.shiftl (bv b3) 24)).

(** [math.Float32frombits]: a [float32] is kept as its bit pattern. *)
Definition Float32frombits (bits : Z) : Z := bits.

(** [for i := 0; i < len(unparsedVariables); i += 4 { s.variables =
    append(s.variables, math.Float32frombits(binary.LittleEndian.Uint32(
    unparsedVariables[0:4]))) }]; [fuel] bounds the number of iterations. *)
Fixpoint floatLoop (fuel : nat) (i : Z) (unparsed : list Byte.byte) (acc : list Z)
  : outcome (list Z) :=
  match fuel with
  | O => Ok acc
  | S fuel' =>
      if i <? len unparsed then
        w <- slice unparsed 0 4 ;;
        x <- LittleEndian_Uint32 w ;;
        floatLoop fuel' (i + 4) unparsed (acc ++ [Float32frombits x])
      else Ok acc
  end.

(** [binaryDataSection.parseBytes]. *)
Definition binaryDataSection_parseBytes (data : list Byte.byte)
  : outcome (binaryDataSection * Z) :=
  if len data <? 11 then Err "GRIB file section must be at least 11 bytes long" else
  d0 <- idx data 0 ;; d1 <- idx data 1 ;; d2 <- idx data 2 ;;
  d3 <- idx data 3 ;; d4 <- idx data 4 ;; d5 <- idx data 5 ;;
  d6 <- idx data 6 ;; d7 <- idx data 7 ;; d8 <- idx data 8 ;;
  d9 <- idx data 9 ;; d10 <- idx data 10 ;;
  let L := parse3ByteUint d0 d1 d2 in
  let flag := bv d3 in
  let bsf := parse2ByteInt d4 d5 in
  let ref := parse4ByteReal d6 d7 d8 d9 in
  let bpv := bv d10 in
  if len data <? L
  then Err "section 3 claims its length is greater than data size" else
  let sec vars unparsed :=
    {| section4Length := L; dataFlag := flag; binaryScaleFactor := bsf;
       referenceValue := ref; bitsPerValue := bpv;
       variables := vars; unparsedVariables := unparsed |} in
  if floatingPointValuesRepresented flag then
    if negb (bpv =? 32) then Err "bitsPerValue wanted 32 for floating point values" else
    unparsed <- slice_from data 11 ;;
    if negb (len unparsed mod 4 =? 0) then Err "len(data) isn't divisible by 4" else
    vars <- floatLoop (List.length unparsed) 0 unparsed [] ;;
    Ok (sec vars [], L)
  else
    unparsed <- slice_from data 11 ;;
    Ok (sec [] unparsed, L).

(** [endSection.parseBytes]. *)
Definition endSection_parseBytes (data : list Byte.byte) : outcome Z :=
  if len data <? 4 then Err "expected data length of at least 4" else
  w <- slice data 0 4 ;;
  if bytes_eqb w end_sentinel then Ok 4 else Err "got bad end sequence".

Record Message := mkMessage {
  ind : Z;  (** the [messageLength] of the indicator section *)
  product : ProductDefinition;
  grid : option GridDescription;
  bitmap : option Bitmap;
  binary : binaryDataSection
}.

Section Read1.

(** The decoders of the two optional sections. *)
Variable parseGrid : list Byte.byte -> outcome (GridDescription * Z).
Variable parseBitmap : list Byte.byte -> outcome (Bitmap * Z).

(** [Read1], over the decoders of the two optional sections. *)
Definition Read1_with (data : list Byte.byte) : outcome (Message * Z) :=
  '(messageLength, bytesRead) <- wrap "error parsing indicator section: "
                                      (indicatorSection_parseBytes data) ;;
  unconsumed <- slice_from data bytesRead ;;
  '(sec1, bytesRead) <- wrap "error parsing indicator section: "
                             (ProductDefinition_parseBytes unconsumed) ;;
  unconsumed <- slice_from unconsumed bytesRead ;;
  '(sec2, unconsumed) <-
    (if gridDescriptionSectionIncluded sec1 then
       '(g, bytesRead) <- wrap "error parsing indicator section: " (parseGrid unconsumed) ;;
       u <- slice_from unconsumed bytesRead ;;
       Ok (Some g, u)
     else Ok (None, unconsumed)) ;;
  '(sec3, unconsumed) <-
    (if BitmapIncluded sec1 then
       '(b, bytesRead) <- wrap "error parsing indicator section: " (parseBitmap unconsumed) ;;
       u <- slice_from unconsumed bytesRead ;;
       Ok (Some b, u)
     else Ok (None, unconsumed)) ;;
  '(sec4, bytesRead) <- wrap "error parsing binary data section: "
                             (binaryDataSection_parseBytes unconsumed) ;;
  unconsumed <- slice_from unconsumed bytesRead ;;
  bytesRead <- wrap "error parsing binary data section: " (endSection_parseBytes unconsumed) ;;
  unconsumed <- slice_from unconsumed bytesRead ;;
  let consumedCount := len data - len unconsumed in
  (* the error path slices [data[consumedCount:messageLength]] only when
     [consumedCount < messageLength <= len(data)], which is in range *)
  if negb (consumedCount =? messageLength)
  then Err "consumed bytes differ from the message length in header"
  else Ok (mkMessage messageLength sec1 sec2 sec3 sec4, consumedCount).

End Read1.

(** [Read1]. *)
Definition Read1 (data : list Byte.byte) : outcome (Message * Z) :=
  Read1_with GridDescription_parseBytes Bitmap_parseBytes data.

(** [read1MaybeZeroPadded]: skips leading zero bytes; a [nil] message is
    [None]. *)
Fixpoint read1MaybeZeroPadded_loop (data : list Byte.byte) (zerosConsumed : Z)
  : outcome (option Message * Z) :=
  match data with
  | [] => Ok (None, zerosConsumed)
  | b :: rest =>
      if Byte.eqb b x00 then read1MaybeZeroPadded_loop rest (zerosConsumed + 1)
      else
        match Read1 data with
        | Ok (got, recordBytes) => Ok (Some got, recordBytes + zerosConsumed)
        | Err e => Err e
        | Panic => Panic
        end
  end.

Definition read1MaybeZeroPadded (data : list Byte.byte) : outcome (option Message * Z) :=
  read1MaybeZeroPadded_loop data 0.

(** The loop of [Read].  Every iteration consumes at least one byte (a zero
    byte, or a whole message of at least 12 bytes), so [len(data) + 1]
    iterations always suffice. *)
Fixpoint Read_loop (fuel : nat) (unconsumed : list Byte.byte) (offset : Z)
  (out : list (option Message)) : outcome (list (option Message)) :=
  match fuel with
  | O => Ok out
  | S fuel' =>
      match unconsumed with
      | [] => Ok out
      | _ :: _ =>
          match read1MaybeZeroPadded unconsumed with
          | Ok (record, bytesRead) =>
              u <- slice_from unconsumed bytesRead ;;
              Read_loop fuel' u (offset + bytesRead) (out ++ [record])
          | Err e => Err ("error reading GRIB record: " ++ e)
          | Panic => Panic
          end
      end
  end.

(** [Read]: the returned slice of [*Message], a [nil] entry being [None]. *)
Definition Read (data : list Byte.byte) : outcome (list (option Message)) :=
  Read_loop (S (List.length data)) data 0 [].


(** [LatLng.Plus]: the [+=] on [int32] fields wraps around. *)
Definition LatLng_Plus (ll other : LatLng) : LatLng :=
  mkLatLng (mkQuantizedAngle (toInt32 (milliDegrees (lat ll) + milliDegrees (lat other))))
           (mkQuantizedAngle (toInt32 (milliDegrees (lng ll) + milliDegrees (lng other)))).

(** ** Sign-magnitude encoding, after the spec

    Modelled from the spec: the encoder side of [readSignMagnitude] is not
    part of the repository; the spec describes it as "the most significant
    bit of the leftmost byte is a sign flag (1 = negative), the remaining
    bits form the magnitude". *)

Definition byte_of_Z (z : Z) : Byte.byte :=
  match Byte.of_N (Z.to_N (z mod 256)) with
  | Some b => b
  | None => x00
  end.

(** [n] big-endian bytes of [x]. *)
Fixpoint be_bytes (n : nat) (x : Z) : list Byte.byte :=
  match n with
  | O => []
  | S k => be_bytes k (x / 256) ++ [byte_of_Z x]
  end.

Definition spec_encodeSignMagnitude (n : nat) (v : Z) : list Byte.byte :=
  let w := 8 * Z.of_nat n - 1 in
  be_bytes n ((if v <? 0 then 2 ^ w else 0) + Z.abs v).

(** ** Sample inputs *)

(** A 28-byte Product Definition section of declared length 28 whose octets
    27-28 hold the sign-magnitude value 5 and whose octets 22-23 hold 0. *)
Definition pds_sample : list Byte.byte :=
  [x00; x00; x1c] ++ repeat x00 23 ++ [x00; x05].

(** A Product Definition section declaring 8 bytes, over a 28-byte span whose
    byte 20 (the time range indicator) is [b]. *)
Definition pds_short_length (b : Byte.byte) : list Byte.byte :=
  [x00; x00; x08] ++ repeat x00 17 ++ [b] ++ repeat x00 7.

(** The 22 payload bytes of a 2 x 2 latitude/longitude grid from (0,0) to
    (1000,1000) millidegrees with increments of 1000, scanning mode [sm]. *)
Definition ll_payload (sm : Byte.byte) : list Byte.byte :=
  [x00; x02; x00; x02; x00; x00; x00; x00; x00; x00; x80;
   x00; x03; xe8; x00; x03; xe8; x03; xe8; x03; xe8; sm].

(** A Binary Data section of 19 bytes with direct floating-point samples,
    32 bits per value, and two groups [01 00 00 00] and [02 00 00 00]. *)
Definition bds_float_sample : list Byte.byte :=
  [x00; x00; x13; x00; x00; x00; x00; x00; x00; x00; x20;
   x01; x00; x00; x00; x02; x00; x00; x00].

(** A Binary Data section declaring 11 bytes, with the integer-values flag. *)
Definition bds_int_sample : list Byte.byte :=
  [x00; x00; x0b; x20; x00; x00; x00; x00; x00; x00; x08].

(** A Grid Description section with the latitude/longitude representation
    and the declared length 6: its representation is empty. *)
Definition grid_section_truncated : list Byte.byte :=
  [x00; x00; x06; x00; xff; x00].

(** A Grid Description section with a full latitude/longitude grid. *)
Definition grid_section_ll : list Byte.byte :=
  [x00; x00; x1c; x00; xff; x00] ++ ll_payload x40.

(** A GRIB1 message with Product Definition flag byte [flags], the optional
    sections [grid] and [bm], an 11-byte Binary Data section and the end
    section. *)
Definition sample_message (flags : Byte.byte) (grid bm : list Byte.byte)
  : list Byte.byte :=
  let body := ([x00; x00; x1c; x03; x62; x01; xff; flags] ++ repeat x00 20)
              ++ grid ++ bm ++ bds_int_sample ++ end_sentinel in
  let n := Z.of_nat (8 + List.length body) in
  [x47; x52; x49; x42; x00; byte_of_Z (n / 256); byte_of_Z (n mod 256); x01]
  ++ body.

(** ** Exact rounding of binary64 values *)

Section Binary64.

Lemma digits2_pos_size (p : positive) : digits2_pos p = Pos.size p.
Proof. induction p; simpl; congruence. Qed.

Lemma digits2_pos_iter_xO (m n : positive) :
  digits2_pos (Pos.iter xO m n) = (digits2_pos m + n)%positive.
Proof.
  induction n using Pos.peano_ind.
  - simpl. now rewrite Pos.add_1_r.
  - rewrite Pos.iter_succ. simpl. rewrite IHn.
    now rewrite Pos.add_succ_r.
Qed.

Lemma iter_xO_mul (m p : positive) :
  Zpos (Pos.iter xO m p) = Zpos m * 2 ^ Zpos p.
Proof.
  induction p using Pos.peano_ind.
  - simpl. lia.
  - rewrite Pos.iter_succ, Pos2Z.inj_succ, Z.pow_succ_r by lia.
    change (Zpos (xO (Pos.iter xO m p))) with (2 * Zpos (Pos.iter xO m p)).
    rewrite IHp. lia.
Qed.

Lemma fexp_normal (x : Z) : -1074 <= x - 53 -> fexp 53 1024 x = x - 53.
Proof. intros H. unfold fexp, emin. lia. Qed.

(** Rounding a mantissa that is already a canonical binary64 mantissa for its
    exponent changes nothing. *)
Lemma round_aux_exact (sx : bool) (m : positive) (e : Z) :
  fexp 53 1024 (Zpos (digits2_pos m) + e) = e ->
  e <= 1024 - 53 ->
  binary_round_aux 53 1024 sx (Zpos m) e loc_Exact = S754_finite sx m e.
Proof.
  intros Hf He. unfold binary_round_aux, shr_fexp.
  change (Zdigits2 (Zpos m)) with (Zpos (digits2_pos m)).
  rewrite Hf, Z.sub_diag. cbn [shr shr_m shr_record_of_loc loc_of_shr_record round_nearest_even].
  change (Zdigits2 (Zpos m)) with (Zpos (digits2_pos m)).
  rewrite Hf, Z.sub_diag. cbn [shr shr_m].
  apply Z.leb_le in He. now rewrite He.
Qed.

(** [binary_round] of a mantissa of at most 53 bits whose value lies in the
    normal range is exact: it only left-aligns the mantissa. *)
Lemma binary_round_exact (sx : bool) (m : positive) (e : Z) :
  Zpos (digits2_pos m) <= 53 ->
  -1074 <= Zpos (digits2_pos m) + e - 53 ->
  Zpos (digits2_pos m) + e <= 1024 ->
  exists m', binary_round 53 1024 sx m e
             = S754_finite sx m' (Zpos (digits2_pos m) + e - 53)
           /\ Zpos m' = Zpos m * 2 ^ (53 - Zpos (digits2_pos m))
           /\ Zpos (digits2_pos m') = 53.
Proof.
  intros Hd Hlo Hhi. unfold binary_round.
  rewrite (fexp_normal _ Hlo). unfold shl_align.
  destruct (Zpos (digits2_pos m) + e - 53 - e) eqn:Hs.
  - exists m. rewrite round_aux_exact.
    + split; [f_equal; lia|]. split; [|lia].
      replace (53 - Zpos (digits2_pos m)) with 0 by lia. lia.
    + rewrite fexp_normal; lia.
    + lia.
  - lia.
  - exists (Pos.iter xO m p).
    assert (Hp : Zpos p = 53 - Zpos (digits2_pos m)) by lia.
    assert (Hdig : Zpos (digits2_pos (Pos.iter xO m p)) = 53).
    { rewrite digits2_pos_iter_xO, Pos2Z.inj_add. lia. }
    rewrite round_aux_exact.
    + split; [reflexivity|]. split; [|exact Hdig].
      rewrite <- Hp. apply iter_xO_mul.
    + rewrite Hdig. rewrite fexp_normal; lia.
    + lia.
Qed.

Lemma shr_iter52 (m : positive) :
  iter_pos shr_1 52 {| shr_m := Zpos (Pos.iter xO m 52); shr_r := false; shr_s := false |}
  = {| shr_m := Zpos m; shr_r := false; shr_s := false |}.
Proof. reflexivity. Qed.

(** [x * -1] on a normal binary64 value only flips the sign. *)
Lemma mul_minus_one (s : bool) (m : positive) (e : Z) :
  Zpos (digits2_pos m) = 53 ->
  -1074 <= e <= 971 ->
  float64_mul (S754_finite s m e) (float64_of_int (-1)) = S754_finite (negb s) m e.
Proof.
  intros Hd He.
  change (float64_of_int (-1)) with (S754_finite true (Pos.iter xO 1%positive 52) (-52)).
  unfold float64_mul, SFmul.
  replace (xorb s true) with (negb s) by (destruct s; reflexivity).
  replace (Pos.mul m (Pos.iter xO 1%positive 52)) with (Pos.iter xO m 52).
  2:{ apply Pos2Z.inj. rewrite Pos2Z.inj_mul, !iter_xO_mul. lia. }
  unfold binary_round_aux, shr_fexp.
  change (Zdigits2 (Zpos (Pos.iter xO m 52))) with (Zpos (digits2_pos (Pos.iter xO m 52))).
  rewrite digits2_pos_iter_xO, Pos2Z.inj_add, Hd.
  rewrite fexp_normal by lia.
  replace (53 + 52 + (e + -52) - 53 - (e + -52)) with 52 by lia.
  cbn [shr shr_record_of_loc]. rewrite shr_iter52.
  cbn [shr_m shr_record_of_loc loc_of_shr_record round_nearest_even].
  change (Zdigits2 (Zpos m)) with (Zpos (digits2_pos m)).
  rewrite Hd, fexp_normal by lia.
  replace (53 + (e + -52 + 52) - 53 - (e + -52 + 52)) with 0 by lia.
  cbn [shr shr_m].
  replace (e + -52 + 52) with e by lia.
  assert (He' : (e <=? 1024 - 53) = true) by (apply Z.leb_le; lia).
  now rewrite He'.
Qed.

End Binary64.

(** ** Bytes as integers *)

Lemma bv_bounds (b : Byte.byte) : 0 <= bv b < 256.
Proof.
  unfold bv. pose proof (Byte.to_N_bounded b). lia.
Qed.

Lemma lor_shiftl_low (x y k : Z) :
  0 <= k -> 0 <= y < 2 ^ k ->
  Z.lor (Z.shiftl x k) y = x * 2 ^ k + y.
Proof.
  intros Hk Hy.
  assert (Hland : Z.land (Z.shiftl x k) y = 0).
  { apply Z.bits_inj'. intros i Hi. rewrite Z.land_spec, Z.bits_0.
    destruct (Z.lt_ge_cases i k) as [Hlt | Hge].
    - rewrite Z.shiftl_spec by lia. rewrite Z.testbit_neg_r by lia. reflexivity.
    - rewrite andb_comm.
      destruct (Z.eq_dec y 0) as [->|Hy0]; [rewrite Z.bits_0; reflexivity|].
      rewrite Z.bits_above_log2; [reflexivity|lia|].
      apply Z.log2_lt_pow2; [lia|].
      pose proof (Z.pow_le_mono_r 2 k i ltac:(lia) Hge). lia. }
  rewrite <- Z.lxor_lor by exact Hland.
  rewrite <- Z.add_nocarry_lxor by exact Hland.
  rewrite Z.shiftl_mul_pow2 by lia. reflexivity.
Qed.


(** [lia] with the constant powers of two evaluated. *)
Ltac pow_lia :=
  repeat match goal with
         | |- context [2 ^ (Zpos ?p)] =>
             let v := eval compute in (2 ^ Zpos p) in change (2 ^ Zpos p) with v
         | H : context [2 ^ (Zpos ?p)] |- _ =>
             let v := eval compute in (2 ^ Zpos p) in change (2 ^ Zpos p) with v in H
         end;
  lia.

Lemma parse4ByteUint_value (b0 b1 b2 b3 : Byte.byte) :
  parse4ByteUint b0 b1 b2 b3 = bv b0 * 2 ^ 24 + bv b1 * 2 ^ 16 + bv b2 * 2 ^ 8 + bv b3.
Proof.
  pose proof (bv_bounds b0). pose proof (bv_bounds b1).
  pose proof (bv_bounds b2). pose proof (bv_bounds b3).
  unfold parse4ByteUint.
  rewrite (Z.lor_comm (bv b3)), lor_shiftl_low by pow_lia.
  rewrite (Z.lor_comm (bv b2 * 2 ^ 8 + bv b3)), lor_shiftl_low by pow_lia.
  rewrite (Z.lor_comm (bv b1 * 2 ^ 16 + _)), lor_shiftl_low by pow_lia.
  pow_lia.
Qed.

Lemma idx_nth (l : list Byte.byte) (i : Z) (b : Byte.byte) :
  0 <= i -> nth_error l (Z.to_nat i) = Some b -> idx l i = Ok b.
Proof.
  intros Hi Hn. unfold idx.
  assert (Hlt : (Z.to_nat i < List.length l)%nat).
  { apply nth_error_Some. congruence. }
  replace ((0 <=? i) && (i <? Z.of_nat (List.length l))) with true
    by (symmetry; apply andb_true_intro; split; [apply Z.leb_le | apply Z.ltb_lt]; lia).
  now rewrite Hn.
Qed.

Lemma idx_out_of_range (l : list Byte.byte) (i : Z) :
  Z.of_nat (List.length l) <= i -> idx l i = Panic.
Proof.
  intros H. unfold idx.
  replace (i <? Z.of_nat (List.length l)) with false
    by (symmetry; apply Z.ltb_ge; lia).
  now rewrite andb_false_r.
Qed.

Lemma sign_bit_byte (b : Byte.byte) :
  negb (Z.land (bv b) 128 =? 0) = (bv b / 128 =? 1).
Proof. destruct b; reflexivity. Qed.

Lemma size_bound (p : positive) (k : Z) :
  0 <= k -> Zpos p < 2 ^ k -> Zpos (Pos.size p) <= k.
Proof.
  intros Hk Hp. pose proof (Pos.size_le p) as Hle.
  change (Zpos (2 ^ Pos.size p) <= Zpos (xO p)) in Hle.
  rewrite Pos2Z.inj_pow in Hle.
  change (Zpos (xO p)) with (2 * Zpos p) in Hle.
  destruct (Z.le_gt_cases (Zpos (Pos.size p)) k) as [|Hgt]; [assumption|].
  pose proof (Z.pow_le_mono_r 2 (k + 1) (Zpos (Pos.size p)) ltac:(lia) ltac:(lia)).
  rewrite Z.pow_add_r in H by lia. lia.
Qed.

(** [math.Ldexp(float64(B), E)] is exact for a 24-bit mantissa [B] and the
    exponents [Parse32] produces. *)
Lemma Ldexp_exact (B E : Z) :
  0 <= B < 2 ^ 24 -> -280 <= E <= 228 ->
  (B = 0 /\ Ldexp (float64_of_int B) E = S754_zero false) \/
  (exists m e, Ldexp (float64_of_int B) E = S754_finite false m e
            /\ Zpos (digits2_pos m) = 53 /\ -1074 <= e <= 971
            /\ (inject_Z (Zpos m) * Qpower (2 # 1) e == inject_Z B * Qpower (2 # 1) E)%Q).
Proof.
  intros HB HE. destruct B as [|p|p]; [left; split; reflexivity | right | lia].
  assert (Hd : 1 <= Zpos (digits2_pos p) <= 24).
  { rewrite digits2_pos_size. split; [lia|]. apply size_bound; pow_lia. }
  change (float64_of_int (Zpos p)) with (binary_round 53 1024 false p 0).
  destruct (binary_round_exact false p 0) as [m1 [H1 [Hm1 Hd1]]]; try lia.
  rewrite H1. unfold Ldexp, SFldexp.
  destruct (binary_round_exact false m1 (Zpos (digits2_pos p) + 0 - 53 + E))
    as [m2 [H2 [Hm2 Hd2]]]; try lia.
  rewrite H2. rewrite Hd1 in *.
  exists m2, (53 + (Zpos (digits2_pos p) + 0 - 53 + E) - 53).
  split; [reflexivity|]. split; [exact Hd2|]. split; [lia|].
  replace (53 - 53) with 0 in Hm2 by lia. rewrite Z.mul_1_r in Hm2.
  rewrite Hm2, Hm1, inject_Z_mult, Zpower_Qpower by lia.
  change (inject_Z 2) with (2 # 1).
  rewrite <- Qmult_assoc, <- Qpower_plus by (unfold Qeq; simpl; lia).
  replace (53 - Zpos (digits2_pos p) + (53 + (Zpos (digits2_pos p) + 0 - 53 + E) - 53))
    with E by lia.
  reflexivity.
Qed.

Lemma Parse32_value (b0 b1 b2 b3 : Byte.byte) :
  let s := bv b0 / 128 in
  let A := bv b0 mod 128 in
  let B := bv b1 * 2 ^ 16 + bv b2 * 2 ^ 8 + bv b3 in
  exists f v, Parse32 [b0; b1; b2; b3] = Ok f /\ SFvalue f = Some v /\
    (v == (if s =? 1 then -1 else 1) * inject_Z B * Qpower (2 # 1) (4 * (A - 64) - 24))%Q.
Proof.
  intros s A B. unfold Parse32.
  rewrite (idx_nth _ 0 b0), (idx_nth _ 1 b1), (idx_nth _ 2 b2), (idx_nth _ 3 b3)
    by (lia || reflexivity).
  cbn [bind]. rewrite sign_bit_byte. fold s.
  pose proof (bv_bounds b0). pose proof (bv_bounds b1).
  pose proof (bv_bounds b2). pose proof (bv_bounds b3).
  replace (Z.lor (Z.lor (Z.shiftl (bv b1) 16) (Z.shiftl (bv b2) 8)) (bv b3)) with B.
  2:{ rewrite <- Z.lor_assoc, (lor_shiftl_low (bv b2) (bv b3) 8) by pow_lia.
      rewrite lor_shiftl_low by pow_lia. unfold B. pow_lia. }
  assert (HA : Z.land (bv b0) 127 = A).
  { change 127 with (Z.ones 7). rewrite Z.land_ones by lia. reflexivity. }
  rewrite HA.
  assert (HAb : 0 <= A < 128) by (apply Z.mod_pos_bound; lia).
  destruct (Ldexp_exact B (4 * (A - 64) - 24)) as [[HB0 Hz] | [m [e [Hf [Hd [He Hv]]]]]];
    [unfold B; pow_lia | lia | |].
  - rewrite Hz, HB0.
    destruct (s =? 1); eexists; eexists; (split; [reflexivity|]);
      (split; [reflexivity|]); simpl; unfold Qeq; simpl; lia.
  - rewrite Hf. destruct (s =? 1).
    + rewrite mul_minus_one by assumption.
      eexists; eexists; (split; [reflexivity|]); (split; [reflexivity|]).
      cbn [negb]. rewrite <- !Qmult_assoc, Hv. reflexivity.
    + eexists; eexists; (split; [reflexivity|]); (split; [reflexivity|]).
      rewrite <- !Qmult_assoc, Hv. reflexivity.
Qed.

Lemma toInt32_small (z : Z) : - 2 ^ 31 <= z < 2 ^ 31 -> toInt32 z = z.
Proof.
  intros Hz. unfold toInt32. destruct (Z.le_gt_cases 0 z).
  - rewrite Z.mod_small by pow_lia.
    replace (2 ^ 31 <=? z) with false by (symmetry; apply Z.leb_gt; lia). reflexivity.
  - replace (z mod 2 ^ 32) with (z + 2 ^ 32)
      by (apply Z.mod_unique with (-1); pow_lia).
    replace (2 ^ 31 <=? z + 2 ^ 32) with true by (symmetry; apply Z.leb_le; pow_lia).
    lia.
Qed.

Lemma land_pow2_eqb (x k : Z) :
  0 <= k -> (Z.land x (2 ^ k) =? 0) = negb (Z.testbit x k).
Proof.
  intros Hk. destruct (Z.testbit x k) eqn:Hb; simpl.
  - apply Z.eqb_neq. intros H0.
    assert (Hk' : Z.testbit (Z.land x (2 ^ k)) k = true).
    { rewrite Z.land_spec, Hb, Z.pow2_bits_true by lia. reflexivity. }
    rewrite H0, Z.bits_0 in Hk'. discriminate.
  - apply Z.eqb_eq. apply Z.bits_inj'. intros i Hi.
    rewrite Z.land_spec, Z.bits_0, Z.pow2_bits_eqb by lia.
    destruct (Z.eqb_spec k i) as [<-|]; [rewrite Hb|rewrite andb_false_r]; reflexivity.
Qed.

(** The sign-magnitude read of [parse2ByteInt] and [parse3ByteInt] on an
    unsigned value whose top bit [k] is the sign and whose low [k] bits are
    the magnitude of [v]. *)
Lemma sign_magnitude_decode (u k v : Z) :
  0 < k < 31 -> Z.abs v <= 2 ^ k - 1 ->
  u = (if v <? 0 then 2 ^ k else 0) + Z.abs v ->
  (if negb (Z.land u (Z.shiftl 1 k) =? 0)
   then toInt32 (-1 * toInt32 (Z.land u (Z.ones k)))
   else toInt32 (Z.land u (Z.ones k))) = v.
Proof.
  intros Hk Hv Hu.
  assert (Hpk : 2 ^ k <= 2 ^ 30) by (apply Z.pow_le_mono_r; lia).
  rewrite Z.shiftl_1_l, land_pow2_eqb, Z.land_ones by lia.
  replace (Z.testbit u k) with (Z.odd (u / 2 ^ k)).
  2:{ rewrite <- Z.shiftr_div_pow2, <- Z.bit0_odd, Z.shiftr_spec by lia. reflexivity. }
  assert (Hq : u / 2 ^ k = if v <? 0 then 1 else 0).
  { rewrite Hu. destruct (v <? 0);
      [ symmetry; apply Z.div_unique with (Z.abs v) | apply Z.div_small ]; lia. }
  assert (Hr : u mod 2 ^ k = Z.abs v).
  { rewrite Hu. destruct (v <? 0);
      [ symmetry; apply Z.mod_unique with 1 | apply Z.mod_small ]; lia. }
  rewrite Hq, Hr. destruct (Z.ltb_spec v 0); cbn [Z.odd negb].
  - rewrite (toInt32_small (Z.abs v)) by pow_lia.
    rewrite toInt32_small by pow_lia. lia.
  - rewrite toInt32_small by pow_lia. lia.
Qed.

Lemma bv_byte_of_Z (z : Z) : bv (byte_of_Z z) = z mod 256.
Proof.
  unfold byte_of_Z, bv.
  pose proof (Z.mod_pos_bound z 256 ltac:(lia)) as Hb.
  pose proof (Byte.to_of_N_option_map (Z.to_N (z mod 256))) as H.
  replace (N.leb (Z.to_N (z mod 256)) 255) with true in H
    by (symmetry; apply N.leb_le; lia).
  destruct (Byte.of_N (Z.to_N (z mod 256))) as [b|]; [|discriminate].
  injection H as H. rewrite H. lia.
Qed.

(** ** Inversion of the decoders *)

Lemma wrap_Ok {A : Type} (p : string) (m : outcome A) (a : A) :
  wrap p m = Ok a -> m = Ok a.
Proof. destruct m; simpl; congruence. Qed.

Lemma idx_Ok (l : list Byte.byte) (i : Z) (b : Byte.byte) :
  idx l i = Ok b -> nth_error l (Z.to_nat i) = Some b.
Proof.
  unfold idx. destruct (_ && _); [|discriminate].
  destruct (nth_error l (Z.to_nat i)); congruence.
Qed.

Lemma slice_from_Ok (l u : list Byte.byte) (lo : Z) :
  slice_from l lo = Ok u -> 0 <= lo /\ u = skipn (Z.to_nat lo) l.
Proof.
  unfold slice_from, slice.
  destruct ((0 <=? lo) && _ && _) eqn:E; [|discriminate].
  intros H; injection H as <-.
  apply andb_prop in E as [E _]; apply andb_prop in E as [E _].
  apply Z.leb_le in E. split; [lia|].
  apply firstn_all2. rewrite length_skipn. lia.
Qed.

Lemma nth_error_skipn' (n i : nat) (l : list Byte.byte) :
  nth_error (skipn n l) i = nth_error l (n + i).
Proof.
  revert l; induction n as [|n IH]; intros [|b l]; simpl; auto.
  destruct i; reflexivity.
Qed.

Lemma bind_Ok {A B : Type} (m : outcome A) (k : A -> outcome B) (b : B) :
  bind m k = Ok b -> exists a, m = Ok a /\ k a = Ok b.
Proof. destruct m; simpl; eauto; discriminate. Qed.

Lemma bind_of_Ok {A B : Type} (m : outcome A) (k : A -> outcome B) (a : A) :
  m = Ok a -> bind m k = k a.
Proof. intros ->. reflexivity. Qed.

(** Case analysis on every [bind], [if] and pair met on the way to a
    successful result. *)
Ltac outcome_inv :=
  repeat match goal with
  | E : bind _ _ = Ok _ |- _ =>
      let a := fresh "a" in let Ea := fresh "E" in
      apply bind_Ok in E as [a [Ea E]]; cbv beta iota zeta in E
  | E : (if ?c then _ else _) = Ok _ |- _ =>
      let Ec := fresh "E" in destruct c eqn:Ec; cbv beta iota zeta in E
  | E : match ?p with (_, _) => _ end = Ok _ |- _ =>
      destruct p; cbv beta iota zeta in E
  | E : Ok _ = Ok _ |- _ => injection E; clear E; intros; subst
  | E : Err _ = Ok _ |- _ => discriminate E
  | E : Panic = Ok _ |- _ => discriminate E
  end.

(** Evaluation of a decoder along the results recorded in the context. *)
Ltac outcome_replay :=
  repeat first
    [ match goal with E : ?x = Ok _ |- context [bind ?x _] =>
        rewrite (bind_of_Ok _ _ _ E) end
    | match goal with E : ?c = _ |- context [if ?c then _ else _] =>
        rewrite E end
    | progress cbv beta iota zeta
    | progress cbn [bind] ].

Lemma indicatorSection_bytesRead (data : list Byte.byte) (ml br : Z) :
  indicatorSection_parseBytes data = Ok (ml, br) -> br = 8.
Proof.
  unfold indicatorSection_parseBytes. intros H. outcome_inv. reflexivity.
Qed.

Lemma ProductDefinition_flags (data : list Byte.byte) (s : ProductDefinition) (k : Z) :
  ProductDefinition_parseBytes data = Ok (s, k) ->
  exists b, nth_error data 7 = Some b /\ section1Flags s = bv b.
Proof.
  unfold ProductDefinition_parseBytes. intros H. outcome_inv.
  match goal with E : idx data 7 = Ok ?b |- _ =>
    exists b; split; [apply (idx_Ok _ 7); exact E | reflexivity] end.
Qed.

Lemma read1MaybeZeroPadded_loop_zeros (n : nat) (z : Z) :
  read1MaybeZeroPadded_loop (repeat x00 n) z = Ok (None, z + Z.of_nat n).
Proof.
  revert z; induction n as [|n IH]; intros z; simpl.
  - rewrite Z.add_0_r. reflexivity.
  - rewrite IH. f_equal. f_equal. lia.
Qed.

Lemma slice_from_all (l : list Byte.byte) :
  slice_from l (Z.of_nat (List.length l)) = Ok [].
Proof.
  unfold slice_from, slice.
  rewrite Z.leb_refl, andb_true_r, andb_true_r.
  replace (0 <=? Z.of_nat (List.length l)) with true by (symmetry; apply Z.leb_le; lia).
  rewrite Z.sub_diag. reflexivity.
Qed.


Lemma toInt32_add_l (x y : Z) : toInt32 (toInt32 x + y) = toInt32 (x + y).
Proof.
  unfold toInt32 at 2 3.
  assert (E : (x mod 2 ^ 32 + y) mod 2 ^ 32 = (x + y) mod 2 ^ 32)
    by (rewrite Z.add_mod_idemp_l; [reflexivity | pow_lia]).
  destruct (2 ^ 31 <=? x mod 2 ^ 32).
  - unfold toInt32. replace ((x mod 2 ^ 32 - 2 ^ 32 + y) mod 2 ^ 32)
      with ((x + y) mod 2 ^ 32); [reflexivity|].
    rewrite <- E. replace (x mod 2 ^ 32 - 2 ^ 32 + y) with ((x mod 2 ^ 32 + y) + (-1) * 2 ^ 32)
      by ring. rewrite Z.mod_add by pow_lia. reflexivity.
  - unfold toInt32. rewrite E. reflexivity.
Qed.

Lemma Parse32_sign (b0 b1 b2 b3 : Byte.byte) :
  let out := Ldexp (float64_of_int (bv b1 * 2 ^ 16 + bv b2 * 2 ^ 8 + bv b3))
                   (4 * (bv b0 mod 128 - 64) - 24) in
  Parse32 [b0; b1; b2; b3] = Ok (if bv b0 / 128 =? 1 then SFopp out else out).
Proof.
  intros out. unfold Parse32.
  rewrite (idx_nth _ 0 b0), (idx_nth _ 1 b1), (idx_nth _ 2 b2), (idx_nth _ 3 b3)
    by (lia || reflexivity).
  cbn [bind]. rewrite sign_bit_byte.
  pose proof (bv_bounds b0). pose proof (bv_bounds b1).
  pose proof (bv_bounds b2). pose proof (bv_bounds b3).
  replace (Z.lor (Z.lor (Z.shiftl (bv b1) 16) (Z.shiftl (bv b2) 8)) (bv b3))
    with (bv b1 * 2 ^ 16 + bv b2 * 2 ^ 8 + bv b3).
  2:{ rewrite <- Z.lor_assoc, (lor_shiftl_low (bv b2) (bv b3) 8) by pow_lia.
      rewrite lor_shiftl_low by pow_lia. pow_lia. }
  replace (Z.land (bv b0) 127) with (bv b0 mod 128)
    by (change 127 with (Z.ones 7); rewrite Z.land_ones by lia; reflexivity).
  fold out. destruct (bv b0 / 128 =? 1); [|reflexivity].
  assert (HAb : 0 <= bv b0 mod 128 < 128) by (apply Z.mod_pos_bound; lia).
  unfold out.
  destruct (Ldexp_exact (bv b1 * 2 ^ 16 + bv b2 * 2 ^ 8 + bv b3)
              (4 * (bv b0 mod 128 - 64) - 24)) as [[_ Hz] | [m [e [Hf [Hd [He _]]]]]];
    [pow_lia | lia | |].
  - rewrite Hz. reflexivity.
  - rewrite Hf, mul_minus_one by assumption. reflexivity.
Qed.

Lemma flip_sign_bit (b : Byte.byte) :
  bv (byte_of_Z (Z.lxor (bv b) 128)) / 128 = 1 - bv b / 128
  /\ bv (byte_of_Z (Z.lxor (bv b) 128)) mod 128 = bv b mod 128.
Proof. destruct b; split; reflexivity. Qed.

(** ** Claims about the numeric primitives *)

(** C6: [Parse32] decodes the IBM hexadecimal float of bytes [b0 b1 b2 b3]
    to exactly (-1)^s * B * 2^(4(A-64)-24), where s is bit 7 of [b0], A its
    low seven bits and B the 24-bit big-endian mantissa of [b1 b2 b3]; the
    all-zero input decodes to 0 and [C2 76 A0 00] to -118.625. *)
Theorem Parse32_ibm_value :
  (forall b0 b1 b2 b3 : Byte.byte,
     let s := bv b0 / 128 in
     let A := bv b0 mod 128 in
     let B := bv b1 * 2 ^ 16 + bv b2 * 2 ^ 8 + bv b3 in
     exists f v, Parse32 [b0; b1; b2; b3] = Ok f /\ SFvalue f = Some v /\
       (v == (if s =? 1 then -1 else 1) * inject_Z B * Qpower (2 # 1) (4 * (A - 64) - 24))%Q)
  /\ (exists f, Parse32 [x00; x00; x00; x00] = Ok f /\ SFvalue f = Some 0%Q)
  /\ (exists f v, Parse32 [xc2; x76; xa0; x00] = Ok f /\ SFvalue f = Some v
                  /\ (v == - (118625 # 1000))%Q).
Proof.
  split; [exact Parse32_value|]. split.
  - exists (S754_zero false). split; vm_compute; reflexivity.
  - exists (S754_finite true 8347492278075392 (-46)).
    exists (-8347492278075392 # 70368744177664)%Q.
    split; [vm_compute; reflexivity|]. split; [vm_compute; reflexivity|].
    unfold Qeq. vm_compute. reflexivity.
Qed.

(** C7: encoding V in 2 (resp. 3) sign-magnitude bytes and decoding with
    [parse2ByteInt] (resp. [parse3ByteInt]) gives V back, for every
    |V| <= 2^15 - 1 (resp. 2^23 - 1). *)
Theorem sign_magnitude_roundtrip :
  (forall v : Z, Z.abs v <= 2 ^ 15 - 1 ->
     match spec_encodeSignMagnitude 2 v with
     | [b0; b1] => parse2ByteInt b0 b1 = v
     | _ => False
     end)
  /\ (forall v : Z, Z.abs v <= 2 ^ 23 - 1 ->
     match spec_encodeSignMagnitude 3 v with
     | [b0; b1; b2] => parse3ByteInt b0 b1 b2 = v
     | _ => False
     end).
Proof.
  split; intros v Hv; unfold spec_encodeSignMagnitude; cbv zeta.
  - set (u := (if v <? 0 then 2 ^ (8 * Z.of_nat 2 - 1) else 0) + Z.abs v).
    assert (Hu : 0 <= u < 2 ^ 16) by (unfold u; destruct (v <? 0); simpl Z.of_nat; pow_lia).
    simpl be_bytes.
    unfold parse2ByteInt, parse2ByteUint, parse3ByteUint.
    rewrite parse4ByteUint_value, !bv_byte_of_Z.
    change (bv x00) with 0.
    replace (0 * 2 ^ 24 + 0 * 2 ^ 16 + u / 256 mod 256 * 2 ^ 8 + u mod 256)
      with u by (clear -Hu; Z.div_mod_to_equations; pow_lia).
    apply (sign_magnitude_decode u 15 v); [lia | pow_lia | reflexivity].
  - set (u := (if v <? 0 then 2 ^ (8 * Z.of_nat 3 - 1) else 0) + Z.abs v).
    assert (Hu : 0 <= u < 2 ^ 24) by (unfold u; destruct (v <? 0); simpl Z.of_nat; pow_lia).
    simpl be_bytes.
    unfold parse3ByteInt, parse3ByteUint.
    rewrite parse4ByteUint_value, !bv_byte_of_Z.
    change (bv x00) with 0.
    replace (0 * 2 ^ 24 + u / 256 / 256 mod 256 * 2 ^ 16
             + u / 256 mod 256 * 2 ^ 8 + u mod 256)
      with u by (clear -Hu; Z.div_mod_to_equations; pow_lia).
    apply (sign_magnitude_decode u 23 v); [lia | pow_lia | reflexivity].
Qed.

(** C10: [Parse32] indexes bytes 0 to 3 without a length check: it panics
    exactly on the slices of fewer than 4 bytes and returns a value on every
    other slice. *)
Theorem Parse32_partial (bytes : list Byte.byte) :
  (Parse32 bytes = Panic <-> (List.length bytes < 4)%nat)
  /\ ((4 <= List.length bytes)%nat -> exists f, Parse32 bytes = Ok f).
Proof.
  destruct bytes as [|b0 [|b1 [|b2 [|b3 rest]]]]; simpl List.length.
  - split; [split; [lia | reflexivity] | lia].
  - split; [split; [lia | reflexivity] | lia].
  - split; [split; [lia | reflexivity] | lia].
  - split; [split; [lia | reflexivity] | lia].
  - assert (HOk : exists f, Parse32 (b0 :: b1 :: b2 :: b3 :: rest) = Ok f).
    { unfold Parse32.
      rewrite (idx_nth _ 0 b0), (idx_nth _ 1 b1), (idx_nth _ 2 b2), (idx_nth _ 3 b3)
        by (lia || reflexivity).
      cbn [bind]. destruct (negb _); eexists; reflexivity. }
    destruct HOk as [f Hf]. rewrite Hf.
    split; [split; [discriminate | lia] | eauto].
Qed.

(** ** Claims about the section decoders *)

(** C1: the decimal scale factor is decoded from bytes 21-22 (octets 22-23,
    the number included in average), not from octets 27-28: on a 28-byte
    section of declared length 28 whose octets 27-28 encode 5 and whose
    octets 22-23 are zero, the decoder accepts the section and returns a
    decimal scale factor of 0. *)
Theorem ProductDefinition_decimalScaleFactor_offset :
  exists s : ProductDefinition,
    ProductDefinition_parseBytes pds_sample = Ok (s, 28)
    /\ decimalScaleFactor s = 0
    /\ nth_error pds_sample 21 = Some x00 /\ nth_error pds_sample 22 = Some x00
    /\ nth_error pds_sample 26 = Some x00 /\ nth_error pds_sample 27 = Some x05
    /\ parse2ByteInt x00 x05 = 5.
Proof.
  eexists. split; [vm_compute; reflexivity|].
  repeat split; reflexivity.
Qed.

(** C2: every sample is decoded from the first 4-byte group: on a section
    with direct floating-point samples, 32 bits per value and the two groups
    [01 00 00 00] and [02 00 00 00], the decoder emits two samples, both the
    float32 of bit pattern 1, while the second group holds the pattern 2. *)
Theorem binaryDataSection_samples_first_group :
  exists s : binaryDataSection,
    binaryDataSection_parseBytes bds_float_sample = Ok (s, 19)
    /\ floatingPointValuesRepresented (dataFlag s) = true
    /\ bitsPerValue s = 32
    /\ variables s = [Float32frombits 1; Float32frombits 1]
    /\ LittleEndian_Uint32 (skipn 15 bds_float_sample) = Ok 2.
Proof.
  eexists. split; [vm_compute; reflexivity|].
  repeat split; reflexivity.
Qed.

(** C3: when [Read1] succeeds, the message holds a Grid Description iff bit
    0x80 of the Product Definition flag byte (byte 15 of the message) is
    set, and a Bitmap iff bit 0x40 is set; a decoder whose bit is clear is
    never run: [Read1] over any other function in its place gives the same
    result. *)
Theorem Read1_optional_sections (data : list Byte.byte) (m : Message) (n : Z)
  (H : Read1 data = Ok (m, n)) :
  exists fb : Byte.byte,
    nth_error data 15 = Some fb
    /\ section1Flags (product m) = bv fb
    /\ (grid m <> None <-> Z.land (bv fb) 128 <> 0)
    /\ (bitmap m <> None <-> Z.land (bv fb) 64 <> 0)
    /\ (forall pg pb,
          Read1_with (if Z.land (bv fb) 128 =? 0 then pg else GridDescription_parseBytes)
                     (if Z.land (bv fb) 64 =? 0 then pb else Bitmap_parseBytes)
                     data = Ok (m, n)).
Proof.
  unfold Read1, Read1_with in H. outcome_inv.
  all: match goal with
       | E1 : wrap _ (indicatorSection_parseBytes _) = Ok _ |- _ =>
           pose proof (indicatorSection_bytesRead _ _ _ (wrap_Ok _ _ _ E1)); subst
       end.
  all: match goal with
       | E2 : slice_from _ 8 = Ok _,
         E3 : wrap _ (ProductDefinition_parseBytes _) = Ok _ |- _ =>
           pose proof (slice_from_Ok _ _ _ E2) as [_ Hu];
           pose proof (ProductDefinition_flags _ _ _ (wrap_Ok _ _ _ E3)) as [fb [Hfb Hflags]]
       end.
  all: rewrite Hu, nth_error_skipn' in Hfb.
  all: exists fb; split; [exact Hfb|]; split; [exact Hflags|].
  all: match goal with
       | p : ProductDefinition |- _ =>
           assert (Hg : gridDescriptionSectionIncluded p = negb (Z.land (bv fb) 128 =? 0))
             by (unfold gridDescriptionSectionIncluded; rewrite Hflags; reflexivity);
           assert (Hb : BitmapIncluded p = negb (Z.land (bv fb) 64 =? 0))
             by (unfold BitmapIncluded; rewrite Hflags; reflexivity)
       end.
  all: destruct (Z.land (bv fb) 128 =? 0) eqn:G1;
       destruct (Z.land (bv fb) 64 =? 0) eqn:G2; simpl negb in Hg, Hb;
       try congruence.
  all: apply Z.eqb_eq in G1 || apply Z.eqb_neq in G1;
       apply Z.eqb_eq in G2 || apply Z.eqb_neq in G2.
  all: split; [simpl; split; intros; congruence|].
  all: split; [simpl; split; intros; congruence|].
  all: intros pg pb; unfold Read1_with; outcome_replay; reflexivity.
Qed.

(** A message with a Grid Description and no Bitmap, decoded by [Read1]. *)
Lemma Read1_optional_sections_witness :
  exists m n,
    Read1 (sample_message x80 grid_section_ll []) = Ok (m, n)
    /\ exists fb : Byte.byte,
         nth_error (sample_message x80 grid_section_ll []) 15 = Some fb
         /\ section1Flags (product m) = bv fb
         /\ (grid m <> None <-> Z.land (bv fb) 128 <> 0)
         /\ (bitmap m <> None <-> Z.land (bv fb) 64 <> 0)
         /\ (forall pg pb,
               Read1_with (if Z.land (bv fb) 128 =? 0 then pg else GridDescription_parseBytes)
                          (if Z.land (bv fb) 64 =? 0 then pb else Bitmap_parseBytes)
                          (sample_message x80 grid_section_ll []) = Ok (m, n)).
Proof.
  eexists; eexists.
  assert (E : Read1 (sample_message x80 grid_section_ll []) = Ok (_, _))
    by (vm_compute; reflexivity).
  split; [exact E|].
  exact (Read1_optional_sections _ _ _ E).
Defined.

(** C4: the Binary Data section keeps every byte after octet 11 of its span,
    also those at or beyond its declared length: two spans that agree on
    their first 11 bytes, the declared length, decode to different retained
    payloads.  The Product Definition section likewise reads its fixed
    octets up to 26 past a smaller declared length. *)
Theorem section_decoders_read_past_length :
  (parse3ByteUint x00 x00 x0b = 11
   /\ firstn 11 bds_int_sample = firstn 11 (bds_int_sample ++ [xaa])
   /\ exists s1 s2,
        binaryDataSection_parseBytes bds_int_sample = Ok (s1, 11)
        /\ binaryDataSection_parseBytes (bds_int_sample ++ [xaa]) = Ok (s2, 11)
        /\ unparsedVariables s1 = [] /\ unparsedVariables s2 = [xaa])
  /\ (parse3ByteUint x00 x00 x08 = 8
      /\ firstn 8 (pds_short_length x00) = firstn 8 (pds_short_length x01)
      /\ exists s1 s2,
           ProductDefinition_parseBytes (pds_short_length x00) = Ok (s1, 8)
           /\ ProductDefinition_parseBytes (pds_short_length x01) = Ok (s2, 8)
           /\ timeRangeIndicator s1 = 0 /\ timeRangeIndicator s2 = 1).
Proof.
  split; (split; [reflexivity|]); (split; [reflexivity|]);
    do 2 eexists; (split; [vm_compute; reflexivity|]);
    (split; [vm_compute; reflexivity|]); split; reflexivity.
Qed.

(** C5: for the 2 x 2 grid from (0,0) to (1000,1000) millidegrees with
    increments of 1000, scanning mode 0x40 (+i, +j, i consecutive) gives the
    points (0,0), (0,1000), (1000,0), (1000,1000) in that order; mode 0xC0,
    which differs only in the +i bit, negates the parallel increment and
    gives (0,0), (0,-1000), (1000,0), (1000,-1000). *)
Theorem Points_two_by_two :
  pointsScanInPlusIDirection (bv x40) = true
  /\ pointsScanInPlusIDirection (bv xc0) = false
  /\ pointsScanInPlusJDirection (bv x40) = true
  /\ pointsScanInPlusJDirection (bv xc0) = true
  /\ adjacentPointsInIDirectionAreConsecutive (bv x40) = true
  /\ adjacentPointsInIDirectionAreConsecutive (bv xc0) = true
  /\ (exists g,
        LatLongGrid_parseBytes (ll_payload x40) = Ok g
        /\ numPointsAlongParallel g = 2 /\ numPointsAlongMeridian g = 2
        /\ firstGridPoint g = mkLatLng (mkQuantizedAngle 0) (mkQuantizedAngle 0)
        /\ lastGridPoint g = mkLatLng (mkQuantizedAngle 1000) (mkQuantizedAngle 1000)
        /\ parallelIncrement g = mkQuantizedAngle 1000
        /\ meridianIncrement g = mkQuantizedAngle 1000
        /\ Points g =
             [mkLatLng (mkQuantizedAngle 0) (mkQuantizedAngle 0);
              mkLatLng (mkQuantizedAngle 0) (mkQuantizedAngle 1000);
              mkLatLng (mkQuantizedAngle 1000) (mkQuantizedAngle 0);
              mkLatLng (mkQuantizedAngle 1000) (mkQuantizedAngle 1000)])
  /\ (exists g,
        LatLongGrid_parseBytes (ll_payload xc0) = Ok g
        /\ parallelIncrement g = mkQuantizedAngle (-1000)
        /\ meridianIncrement g = mkQuantizedAngle 1000
        /\ Points g =
             [mkLatLng (mkQuantizedAngle 0) (mkQuantizedAngle 0);
              mkLatLng (mkQuantizedAngle 0) (mkQuantizedAngle (-1000));
              mkLatLng (mkQuantizedAngle 1000) (mkQuantizedAngle 0);
              mkLatLng (mkQuantizedAngle 1000) (mkQuantizedAngle (-1000))]).
Proof.
  repeat (split; [reflexivity|]).
  split; eexists; (split; [vm_compute; reflexivity|]); repeat split; vm_compute; reflexivity.
Qed.

(** C8: no length check guards the latitude/longitude sub-record: a Grid
    Description with representation type 0 and declared length 6 hands an
    empty representation to [LatLongGrid.parseBytes], which indexes it out
    of range; a message carrying that section makes [Read1] panic instead of
    returning an error. *)
Theorem GridDescription_truncated_panics :
  slice grid_section_truncated 6 6 = Ok []
  /\ LatLongGrid_parseBytes [] = Panic
  /\ GridDescription_parseBytes grid_section_truncated = Panic
  /\ Read1 (sample_message x80 grid_section_truncated []) = Panic.
Proof. repeat split; vm_compute; reflexivity. Qed.

(** C9: a nil entry is appended for a trailing run of zero bytes: [Read] of
    any non-empty all-zero buffer returns the one-entry list [[nil]], and a
    message followed by two zero bytes gives the message and a nil entry. *)
Theorem Read_zero_padding_entry :
  (forall n : nat, Read (repeat x00 (S n)) = Ok [None])
  /\ exists m,
       Read (sample_message x00 [] [] ++ [x00; x00]) = Ok [Some m; None].
Proof.
  split.
  - intros n. unfold Read. cbn [Read_loop repeat].
    unfold read1MaybeZeroPadded.
    change (x00 :: repeat x00 n) with (repeat x00 (S n)).
    rewrite read1MaybeZeroPadded_loop_zeros, Z.add_0_l.
    replace (Z.of_nat (S n)) with (Z.of_nat (List.length (repeat x00 (S n))))
      by (rewrite repeat_length; reflexivity).
    rewrite slice_from_all. reflexivity.
  - eexists. vm_compute. reflexivity.
Qed.

(** [sign_magnitude_roundtrip] at the extreme magnitudes. *)
Lemma sign_magnitude_roundtrip_witness :
  Z.abs (-32767) <= 2 ^ 15 - 1
  /\ Z.abs (-8388607) <= 2 ^ 23 - 1
  /\ match spec_encodeSignMagnitude 2 (-32767) with
     | [b0; b1] => parse2ByteInt b0 b1 = -32767
     | _ => False
     end
  /\ match spec_encodeSignMagnitude 3 (-8388607) with
     | [b0; b1; b2] => parse3ByteInt b0 b1 b2 = -8388607
     | _ => False
     end.
Proof.
  split; [vm_compute; discriminate|].
  split; [vm_compute; discriminate|].
  split.
  - apply (proj1 sign_magnitude_roundtrip). vm_compute. discriminate.
  - apply (proj2 sign_magnitude_roundtrip). vm_compute. discriminate.
Defined.

(** [Parse32_partial] at a 4-byte slice and at a 3-byte slice. *)
Lemma Parse32_partial_witness :
  (exists f, Parse32 [x00; x00; x00; x00] = Ok f)
  /\ Parse32 [x00; x00; x00] = Panic.
Proof.
  split.
  - apply (proj2 (Parse32_partial [x00; x00; x00; x00])). simpl. lia.
  - apply (proj1 (Parse32_partial [x00; x00; x00])). simpl. lia.
Defined.

(** ** Further properties of the numeric primitives *)

(** [parse4ByteUint], [parse3ByteUint] and [parse2ByteUint] read their bytes
    as a big-endian unsigned number. *)
Theorem parseByteUint_big_endian (b0 b1 b2 b3 : Byte.byte) :
  parse4ByteUint b0 b1 b2 b3 = bv b0 * 2 ^ 24 + bv b1 * 2 ^ 16 + bv b2 * 2 ^ 8 + bv b3
  /\ 0 <= parse4ByteUint b0 b1 b2 b3 < 2 ^ 32
  /\ parse3ByteUint b0 b1 b2 = bv b0 * 2 ^ 16 + bv b1 * 2 ^ 8 + bv b2
  /\ parse2ByteUint b0 b1 = bv b0 * 2 ^ 8 + bv b1.
Proof.
  pose proof (bv_bounds b0). pose proof (bv_bounds b1).
  pose proof (bv_bounds b2). pose proof (bv_bounds b3).
  unfold parse2ByteUint, parse3ByteUint. rewrite !parse4ByteUint_value.
  change (bv x00) with 0. split; [reflexivity|]. pow_lia.
Qed.

(** [parse2ByteInt] and [parse3ByteInt] decode sign and magnitude: bit 7 of
    the first byte is the sign and the remaining 15 or 23 bits the magnitude;
    a set sign bit with a zero magnitude gives 0. *)
Theorem parseByteInt_sign_magnitude (b0 b1 b2 : Byte.byte) :
  parse2ByteInt b0 b1
    = (if bv b0 <? 128 then 1 else -1) * (bv b0 mod 128 * 2 ^ 8 + bv b1)
  /\ parse3ByteInt b0 b1 b2
    = (if bv b0 <? 128 then 1 else -1) * (bv b0 mod 128 * 2 ^ 16 + bv b1 * 2 ^ 8 + bv b2).
Proof.
  pose proof (bv_bounds b0). pose proof (bv_bounds b1). pose proof (bv_bounds b2).
  assert (Hq : bv b0 / 128 = if bv b0 <? 128 then 0 else 1).
  { destruct (Z.ltb_spec (bv b0) 128);
      [apply Z.div_small; lia | symmetry; apply Z.div_unique with (bv b0 - 128); lia]. }
  assert (Hr : 0 <= bv b0 mod 128 < 128) by (apply Z.mod_pos_bound; lia).
  pose proof (Z.div_mod (bv b0) 128 ltac:(lia)) as Hdm.
  split.
  - unfold parse2ByteInt, parse2ByteUint, parse3ByteUint.
    rewrite parse4ByteUint_value. change (bv x00) with 0.
    change 32767 with (Z.ones 15). rewrite Z.land_ones by lia.
    rewrite Z.shiftl_1_l, land_pow2_eqb by lia.
    set (u := 0 * 2 ^ 24 + 0 * 2 ^ 16 + bv b0 * 2 ^ 8 + bv b1).
    replace (Z.testbit u 15) with (Z.odd (u / 2 ^ 15)).
    2:{ rewrite <- Z.shiftr_div_pow2, <- Z.bit0_odd, Z.shiftr_spec by lia. reflexivity. }
    assert (Hu1 : u / 2 ^ 15 = bv b0 / 128)
      by (clear Hq Hdm; unfold u; Z.div_mod_to_equations; pow_lia).
    assert (Hu2 : u mod 2 ^ 15 = bv b0 mod 128 * 2 ^ 8 + bv b1)
      by (clear Hq Hdm; unfold u; Z.div_mod_to_equations; pow_lia).
    rewrite Hu1, Hu2, Hq.
    destruct (bv b0 <? 128); cbn [Z.odd negb];
      rewrite (toInt32_small (_ * 2 ^ 8 + _)) by pow_lia;
      rewrite ?toInt32_small by pow_lia; lia.
  - unfold parse3ByteInt, parse3ByteUint.
    rewrite parse4ByteUint_value. change (bv x00) with 0.
    change 8388607 with (Z.ones 23). rewrite Z.land_ones by lia.
    rewrite Z.shiftl_1_l, land_pow2_eqb by lia.
    set (u := 0 * 2 ^ 24 + bv b0 * 2 ^ 16 + bv b1 * 2 ^ 8 + bv b2).
    replace (Z.testbit u 23) with (Z.odd (u / 2 ^ 23)).
    2:{ rewrite <- Z.shiftr_div_pow2, <- Z.bit0_odd, Z.shiftr_spec by lia. reflexivity. }
    assert (Hu1 : u / 2 ^ 23 = bv b0 / 128)
      by (clear Hq Hdm; unfold u; Z.div_mod_to_equations; pow_lia).
    assert (Hu2 : u mod 2 ^ 23 = bv b0 mod 128 * 2 ^ 16 + bv b1 * 2 ^ 8 + bv b2)
      by (clear Hq Hdm; unfold u; Z.div_mod_to_equations; pow_lia).
    rewrite Hu1, Hu2, Hq.
    destruct (bv b0 <? 128); cbn [Z.odd negb];
      rewrite (toInt32_small (_ * 2 ^ 16 + _ * 2 ^ 8 + _)) by pow_lia;
      rewrite ?toInt32_small by pow_lia; lia.
Qed.

(** [Parse32] reads only the first four bytes of its argument: any bytes
    after them do not change the result. *)
Theorem Parse32_ignores_trailing_bytes (b0 b1 b2 b3 : Byte.byte) (rest : list Byte.byte) :
  Parse32 (b0 :: b1 :: b2 :: b3 :: rest) = Parse32 [b0; b1; b2; b3].
Proof.
  unfold Parse32.
  rewrite !(idx_nth _ 0 b0), !(idx_nth _ 1 b1), !(idx_nth _ 2 b2), !(idx_nth _ 3 b3)
    by (lia || reflexivity).
  reflexivity.
Qed.

(** Flipping the sign bit of byte 0 makes [Parse32] return the IEEE negation
    of its result, bit for bit: [80 00 00 00] gives negative zero. *)
Theorem Parse32_sign_flip (b0 b1 b2 b3 : Byte.byte) :
  exists f,
    Parse32 [b0; b1; b2; b3] = Ok f
    /\ Parse32 [byte_of_Z (Z.lxor (bv b0) 128); b1; b2; b3] = Ok (SFopp f).
Proof.
  destruct (flip_sign_bit b0) as [Hs Hm].
  rewrite (Parse32_sign (byte_of_Z _)), (Parse32_sign b0), Hs, Hm.
  pose proof (bv_bounds b0).
  assert (Hq : bv b0 / 128 = 0 \/ bv b0 / 128 = 1)
    by (pose proof (Z.div_pos (bv b0) 128); pose proof (Z.div_lt_upper_bound (bv b0) 128 2); lia).
  eexists; split; [reflexivity|].
  destruct Hq as [-> | ->]; cbn -[Ldexp float64_of_int];
    [reflexivity | destruct (Ldexp _ _) as [[]|[]| |[] ? ?]; reflexivity].
Qed.

(** [LatLng.Plus] is commutative and associative, also when the [int32]
    sums wrap around. *)
Theorem LatLng_Plus_comm_assoc (a b c : LatLng) :
  LatLng_Plus a b = LatLng_Plus b a
  /\ LatLng_Plus (LatLng_Plus a b) c = LatLng_Plus a (LatLng_Plus b c).
Proof.
  unfold LatLng_Plus; cbn [lat lng milliDegrees]. split.
  - rewrite (Z.add_comm (milliDegrees (lat a))), (Z.add_comm (milliDegrees (lng a))).
    reflexivity.
  - assert (A : forall x y z, toInt32 (toInt32 (x + y) + z) = toInt32 (x + toInt32 (y + z))).
    { intros x y z. rewrite toInt32_add_l, (Z.add_comm x (toInt32 _)), toInt32_add_l.
      f_equal. ring. }
    rewrite !A. reflexivity.
Qed.
